(** * Leave-One-Cluster-Out cross-validation splitter

    A shallow embedding of the [LocoCV] class of [loco-ridge-steels.ipynb]:
    the generator [_iter_test_masks], the method [get_n_splits], and the
    [split] method that [LocoCV] inherits from scikit-learn's
    [BaseCrossValidator] (its loop as [split], the whole method with its
    input validation as [BaseCrossValidator_split]), with the properties of
    the train/test partitions it produces. *)

From stdpp Require Import base numbers list sorting gmap strings pretty.

Set Default Proof Using "Type".

(** ** Exceptions and generators *)

(** The two Python exceptions that can leave the splitter: the [ValueError]
    the class raises itself, and the [IndexError] of a numpy boolean index
    whose length differs from the indexed array. *)
Inductive exn : Type :=
  | ValueError (msg : string)
  | IndexError.

(** A finished run of a Python generator: the values it yields in order,
    ended by a normal return ([Stop]) or by an exception ([Raise]). *)
Inductive gen (A : Type) : Type :=
  | Stop
  | Raise (e : exn)
  | Yield (a : A) (rest : gen A).
Arguments Stop {A}.
Arguments Raise {A} e.
Arguments Yield {A} a rest.

(** The values a generator hands to its consumer before it ends. *)
Fixpoint yielded {A} (g : gen A) : list A :=
  match g with
  | Stop | Raise _ => []
  | Yield a rest => a :: yielded rest
  end.

(** The exception a generator ends with, if any. *)
Fixpoint raised {A} (g : gen A) : option exn :=
  match g with
  | Stop => None
  | Raise e => Some e
  | Yield _ rest => raised rest
  end.

(** [for x in xs: yield f x] *)
Fixpoint yield_each {A B} (f : A → B) (xs : list A) : gen B :=
  match xs with
  | [] => Stop
  | x :: xs => Yield (f x) (yield_each f xs)
  end.

(** [for x in g: yield (body x)], where the body may raise. *)
Fixpoint for_each {A B} (g : gen A) (body : A → exn + B) : gen B :=
  match g with
  | Stop => Stop
  | Raise e => Raise e
  | Yield a rest =>
      match body a with
      | inl e => Raise e
      | inr b => Yield b (for_each rest body)
      end
  end.

(** ** The numpy operations the class uses *)

(** Second half of [np.unique]: on the sorted array, keep the entries that
    differ from their predecessor. *)
Fixpoint keep_changes (prev : Z) (ar : list Z) : list Z :=
  match ar with
  | [] => []
  | x :: ar =>
      if (x =? prev)%Z then keep_changes x ar else x :: keep_changes x ar
  end.

(** [np.unique(ar)]: the sorted distinct elements of [ar]. *)
Definition np_unique (ar : list Z) : list Z :=
  match merge_sort Z.le ar with
  | [] => []
  | x :: sorted => x :: keep_changes x sorted
  end.

(** [labels == label], an elementwise comparison giving a boolean mask. *)
Definition eq_mask (labels : list Z) (label : Z) : list bool :=
  map (λ l, (l =? label)%Z) labels.

(** [np.logical_not(mask)] *)
Definition logical_not (mask : list bool) : list bool := map negb mask.

(** [np.arange(n)] *)
Definition arange (n : nat) : list nat := seq 0 n.

(** The entries of [arr] at the positions where [mask] is true. *)
Fixpoint select {A} (arr : list A) (mask : list bool) : list A :=
  match arr, mask with
  | a :: arr, b :: mask => if b then a :: select arr mask else select arr mask
  | _, _ => []
  end.

(** [arr[mask]] for a boolean [mask]: numpy raises [IndexError] unless the
    mask is as long as the array. *)
Definition bool_index {A} (arr : list A) (mask : list bool) : exn + list A :=
  if decide (length mask = length arr) then inr (select arr mask)
  else inl IndexError.

(** [repr] of a list of integers, as Python prints it. *)
Definition repr_list (ns : list nat) : string :=
  "[" +:+ String.concat ", " (pretty <$> ns) +:+ "]".

(** The [ValueError] of scikit-learn's [check_consistent_length]. *)
Definition inconsistent_samples (lengths : list nat) : exn :=
  ValueError
    ("Found input variables with inconsistent numbers of samples: "
     +:+ repr_list lengths).

(** scikit-learn's [check_consistent_length], on the lengths of the arrays
    that are not [None]: they must all be the same. *)
Definition check_consistent_length (lengths : list nat) : exn + unit :=
  let uniques := np_unique (Z.of_nat <$> lengths) in
  if decide (1 < length uniques) then inl (inconsistent_samples lengths)
  else inr ().

(** ** The clustering interface *)

Section LocoCV.
(** Feature values and targets are opaque to the splitter. *)
Context {Feature Target : Type}.

(** A Feature Matrix: one list of feature values per row. *)
Definition FeatureMatrix : Type := list (list Feature).

(** [_num_samples(X)] *)
Definition _num_samples (X : FeatureMatrix) : nat := length X.

(** scikit-learn's [ClusterMixin]: [fit_predict] fits the clusterer on [X]
    (changing the clusterer object) and returns one label per row. *)
Class ClustererMixin (C : Type) : Type :=
  fit_predict : C → FeatureMatrix → list Z * C.

(** The [LocoCV] object; [__init__] stores the clusterer. *)
Record LocoCV (C : Type) : Type := __init__ { clusterer : C }.
Arguments __init__ {C} clusterer.
Arguments clusterer {C} _.

Context {C : Type} `{!ClustererMixin C}.

Definition insufficient_clusters : exn :=
  ValueError "Clusterer produced < 2 labels. Cannot use for LOCO CV".

(** [LocoCV._iter_test_masks]: the run of the generator together with the
    object after the clusterer has been fit. *)
Definition _iter_test_masks (self : LocoCV C) (X : FeatureMatrix)
    (y groups : option (list Target)) : gen (list bool) * LocoCV C :=
  let '(labels, fitted) := fit_predict (clusterer self) X in
  let clust_labels := np_unique labels in
  (if decide (length clust_labels < 2) then Raise insufficient_clusters
   else yield_each (λ label, eq_mask labels label) clust_labels,
   __init__ fitted).

(** [LocoCV.get_n_splits] *)
Definition get_n_splits (self : LocoCV C) (X : FeatureMatrix)
    (y groups : option (list Target)) : nat * LocoCV C :=
  let '(labels, fitted) := fit_predict (clusterer self) X in
  (length (np_unique labels), __init__ fitted).

(** The loop of [BaseCrossValidator.split], which [LocoCV] inherits from
    scikit-learn: every test mask of [_iter_test_masks] is turned into the
    pair (train indices, test indices). The arguments are the ones
    scikit-learn's input validation has let through, as in the call
    [split(X)]; [y] and [groups] are handed on as they are. The whole
    method, validation included, is [BaseCrossValidator_split] below. *)
Definition split (self : LocoCV C) (X : FeatureMatrix)
    (y groups : option (list Target))
    : gen (list nat * list nat) * LocoCV C :=
  let indices := arange (_num_samples X) in
  let '(masks, self') := _iter_test_masks self X y groups in
  (for_each masks (λ test_index,
     match bool_index indices (logical_not test_index) with
     | inl e => inl e
     | inr train_index =>
         match bool_index indices test_index with
         | inl e => inl e
         | inr test_index => inr (train_index, test_index)
         end
     end),
   self').

(** A clusterer is deterministic (seeded) when fitting it does not change
    the labels a later fit returns. *)
Definition deterministic (c : C) : Prop :=
  ∀ X X', (fit_predict (fit_predict c X).2 X').1 = (fit_predict c X').1.

(** scikit-learn's [indexable(X, y, groups)]: the arguments that are not
    [None] must have the same number of samples. *)
Definition indexable (X : FeatureMatrix) (y groups : option (list Target))
    : exn + (FeatureMatrix * option (list Target) * option (list Target)) :=
  let lengths :=
    omap id [Some (_num_samples X); length <$> y; length <$> groups] in
  match check_consistent_length lengths with
  | inl e => inl e
  | inr _ => inr (X, y, groups)
  end.

(** The whole [BaseCrossValidator.split]: the arguments are validated by
    [indexable] when the generator starts, before the clusterer is fit, and
    then the loop [split] runs. *)
Definition BaseCrossValidator_split (self : LocoCV C) (X : FeatureMatrix)
    (y groups : option (list Target))
    : gen (list nat * list nat) * LocoCV C :=
  match indexable X y groups with
  | inl e => (Raise e, self)
  | inr (X, y, groups) => split self X y groups
  end.
End LocoCV.

Arguments LocoCV C : clear implicits.
Arguments __init__ {C} clusterer.
Arguments clusterer {C} _.

(** A stub clusterer that returns a fixed label sequence. *)
Record StubClusterer : Type := Stub { stub_labels : list Z }.

Global Instance stub_fit_predict {Feature} :
    ClustererMixin (Feature := Feature) StubClusterer :=
  λ c _, (stub_labels c, c).

(** A clusterer that is not deterministic: every fit uses one cluster more
    than the fit before (rows are assigned round-robin). *)
Record DriftingClusterer : Type := Drifting { fits : nat }.

Global Instance drifting_fit_predict {Feature} :
    ClustererMixin (Feature := Feature) DriftingClusterer :=
  λ c X,
    (map (λ i, Z.of_nat (i mod (fits c + 2))) (seq 0 (length X)),
     Drifting (S (fits c))).

(** ** Notions of the specification *)

(** The distinct labels of a label sequence, as a set. *)
Definition distinct_labels (labels : list Z) : gset Z := list_to_set labels.

(** The rows that carry [label], in increasing order. *)
Definition rows_labelled (labels : list Z) (label : Z) : list nat :=
  filter (λ i, labels !! i = Some label) (seq 0 (length labels)).

(** The rows that carry another label than [label], in increasing order. *)
Definition rows_not_labelled (labels : list Z) (label : Z) : list nat :=
  filter (λ i, labels !! i ≠ Some label) (seq 0 (length labels)).

(** The partition (train indices, test indices) that leaves out the cluster
    [label]. *)
Definition partition_of (labels : list Z) (label : Z) : list nat * list nat :=
  (rows_not_labelled labels label, rows_labelled labels label).

(** The distinct labels in the order of their first appearance. *)
Fixpoint first_appearance (labels : list Z) : list Z :=
  match labels with
  | [] => []
  | l :: labels => l :: filter (λ l', l' ≠ l) (first_appearance labels)
  end.

(** An optional argument fits [X] when it is absent or has one entry per row
    of [X]. *)
Definition fits_rows {A B} (X : list A) (arg : option (list B)) : Prop :=
  from_option (λ entries, length entries = length X) True arg.

(** The set of row indices of an index array. *)
Definition rows (indices : list nat) : gset nat := list_to_set indices.

(** ** Generators *)

Lemma yielded_yield_each {A B} (f : A → B) xs :
  yielded (yield_each f xs) = f <$> xs.
Proof. induction xs as [|x xs IH]; simpl; [done | by rewrite IH]. Qed.

Lemma raised_yield_each {A B} (f : A → B) xs : raised (yield_each f xs) = None.
Proof. by induction xs. Qed.

Lemma for_each_yield_each {A B D} (f : A → B) (body : B → exn + D) g xs :
  (∀ x, x ∈ xs → body (f x) = inr (g x)) →
  for_each (yield_each f xs) body = yield_each g xs.
Proof.
  induction xs as [|x xs IH]; intros Hbody; simpl; [done |].
  rewrite Hbody by left. f_equal. apply IH.
  intros x' Hx'. apply Hbody. by right.
Qed.

(** ** [np.unique] returns the distinct values in ascending order *)

Lemma elem_of_keep_changes prev ar x :
  x ∈ prev :: keep_changes prev ar ↔ x ∈ prev :: ar.
Proof.
  revert prev. induction ar as [|a ar IH]; intros prev; simpl; [done |].
  destruct (Z.eqb_spec a prev) as [->|Hne].
  - rewrite IH, !elem_of_cons. tauto.
  - rewrite !(elem_of_cons _ x prev). by rewrite IH.
Qed.

Lemma keep_changes_sorted prev ar :
  StronglySorted Z.le (prev :: ar) →
  StronglySorted Z.lt (prev :: keep_changes prev ar).
Proof.
  revert prev. induction ar as [|a ar IH]; intros prev Hsorted; simpl.
  { repeat constructor. }
  apply StronglySorted_cons in Hsorted as [Hprev Hsorted].
  apply Forall_cons in Hprev as [Hle Hprev].
  destruct (Z.eqb_spec a prev) as [->|Hne].
  - by apply IH.
  - specialize (IH a Hsorted).
    apply StronglySorted_cons. split; [| done].
    apply StronglySorted_cons in IH as [Hbelow _].
    constructor; [lia |].
    eapply Forall_impl; [exact Hbelow |]. simpl. lia.
Qed.

Lemma np_unique_sorted ar : StronglySorted Z.lt (np_unique ar).
Proof.
  unfold np_unique.
  pose proof (StronglySorted_merge_sort Z.le ar) as Hsorted.
  destruct (merge_sort Z.le ar) as [|x sorted]; [constructor |].
  by apply keep_changes_sorted.
Qed.

Lemma elem_of_np_unique ar x : x ∈ np_unique ar ↔ x ∈ ar.
Proof.
  unfold np_unique. rewrite <-(merge_sort_Permutation Z.le ar) at 2.
  destruct (merge_sort Z.le ar) as [|a sorted]; [done |].
  apply elem_of_keep_changes.
Qed.

Lemma StronglySorted_lt_NoDup (l : list Z) : StronglySorted Z.lt l → NoDup l.
Proof.
  induction 1 as [|x l _ IH Hx]; constructor; [| done].
  intros Hin. rewrite Forall_forall in Hx. specialize (Hx x Hin). lia.
Qed.

Lemma NoDup_np_unique ar : NoDup (np_unique ar).
Proof. apply StronglySorted_lt_NoDup, np_unique_sorted. Qed.

(** [len(np.unique(labels))] is the number of distinct labels. *)
Lemma length_np_unique labels :
  length (np_unique labels) = size (distinct_labels labels).
Proof.
  rewrite <-(size_list_to_set (C := gset Z)) by apply NoDup_np_unique.
  f_equal. apply set_eq. intros x. unfold distinct_labels.
  by rewrite !elem_of_list_to_set, elem_of_np_unique.
Qed.


(** ** Boolean indexing of [np.arange] *)

Lemma filter_ext_elem_of {A} (P Q : A → Prop)
    `{!∀ x, Decision (P x), !∀ x, Decision (Q x)} (l : list A) :
  (∀ x, x ∈ l → P x ↔ Q x) → filter P l = filter Q l.
Proof.
  induction l as [|a l IH]; intros Hext; [done |].
  assert (filter P l = filter Q l) as Htail.
  { apply IH. intros x Hx. apply Hext. by right. }
  destruct (decide (P a)) as [Ha|Ha].
  - rewrite !filter_cons_True, Htail; [done | | done].
    apply Hext; [left | done].
  - rewrite !filter_cons_False, Htail; [done | | done].
    intros HQ. apply Ha, Hext; [left | done].
Qed.

Lemma select_seq start mask :
  select (seq start (length mask)) mask =
  filter (λ i, mask !! (i - start) = Some true) (seq start (length mask)).
Proof.
  revert start. induction mask as [|b mask IH]; intros start; [done |].
  cbn [length seq select].
  assert (filter (λ i, (b :: mask) !! (i - start) = Some true)
                 (seq (S start) (length mask)) =
          filter (λ i, mask !! (i - S start) = Some true)
                 (seq (S start) (length mask))) as Htail.
  { apply filter_ext_elem_of. intros i [Hi _]%elem_of_seq.
    by replace (i - start) with (S (i - S start)) by lia. }
  destruct b.
  - rewrite filter_cons_True by (by rewrite Nat.sub_diag).
    by rewrite Htail, IH.
  - rewrite filter_cons_False by (by rewrite Nat.sub_diag).
    by rewrite Htail, IH.
Qed.

Lemma length_arange n : length (arange n) = n.
Proof. apply length_seq. Qed.

Lemma length_eq_mask labels label :
  length (eq_mask labels label) = length labels.
Proof. unfold eq_mask. by rewrite length_map. Qed.

Lemma length_logical_not mask : length (logical_not mask) = length mask.
Proof. unfold logical_not. by rewrite length_map. Qed.

Lemma lookup_eq_mask labels label i :
  eq_mask labels label !! i = Some true ↔ labels !! i = Some label.
Proof.
  unfold eq_mask. change (map ?f ?l) with (f <$> l).
  rewrite list_lookup_fmap. destruct (labels !! i) as [l|]; simpl; [| done].
  destruct (Z.eqb_spec l label); naive_solver.
Qed.

Lemma lookup_logical_not_eq_mask labels label i :
  (i < length labels) →
  logical_not (eq_mask labels label) !! i = Some true ↔
  labels !! i ≠ Some label.
Proof.
  intros [l Hl]%lookup_lt_is_Some. unfold logical_not, eq_mask.
  change (map ?f ?l) with (f <$> l).
  rewrite !list_lookup_fmap, Hl. simpl.
  destruct (Z.eqb_spec l label); naive_solver.
Qed.

(** The test indices of a mask are the rows that carry its label. *)
Lemma test_index_rows labels label :
  select (arange (length labels)) (eq_mask labels label) =
  rows_labelled labels label.
Proof.
  unfold arange, rows_labelled.
  rewrite <-(length_eq_mask labels label) at 1. rewrite select_seq.
  rewrite length_eq_mask. apply filter_ext_elem_of. intros i _.
  rewrite Nat.sub_0_r. apply lookup_eq_mask.
Qed.

(** The train indices of a mask are the rows that carry another label. *)
Lemma train_index_rows labels label :
  select (arange (length labels)) (logical_not (eq_mask labels label)) =
  rows_not_labelled labels label.
Proof.
  unfold arange, rows_not_labelled.
  rewrite <-(length_eq_mask labels label) at 1.
  rewrite <-length_logical_not, select_seq.
  rewrite length_logical_not, length_eq_mask.
  apply filter_ext_elem_of. intros i [_ Hi]%elem_of_seq.
  rewrite Nat.sub_0_r. apply lookup_logical_not_eq_mask. lia.
Qed.

(** ** The run of [split] *)

Section split_run.
Context {Feature Target C : Type} `{!ClustererMixin (Feature := Feature) C}.
Implicit Types (self : LocoCV C) (X : @FeatureMatrix Feature).
Implicit Types (y groups : option (list Target)).

Lemma split_run self X y groups :
  let labels := (fit_predict (clusterer self) X).1 in
  (split self X y groups).1 =
    if decide (length (np_unique labels) < 2)
    then Raise insufficient_clusters
    else if decide (length labels = length X)
    then yield_each (partition_of labels) (np_unique labels)
    else Raise IndexError.
Proof.
  unfold split, _iter_test_masks.
  destruct (fit_predict (clusterer self) X) as [labels fitted]; simpl.
  destruct (decide (length (np_unique labels) < 2)) as [|Hk]; [done |].
  unfold _num_samples.
  destruct (decide (length labels = length X)) as [Hn|Hn].
  - apply for_each_yield_each. intros label _. unfold bool_index.
    rewrite length_logical_not, length_eq_mask, length_arange.
    rewrite <-Hn, !decide_True by done.
    by rewrite train_index_rows, test_index_rows.
  - destruct (np_unique labels) as [|label rest]; simpl in *; [lia |].
    unfold bool_index.
    rewrite length_logical_not, length_eq_mask, length_arange.
    by rewrite decide_False.
Qed.

End split_run.

(** ** Rows of a cluster and of its complement *)

Lemma elem_of_rows_labelled labels label i :
  i ∈ rows_labelled labels label ↔ labels !! i = Some label.
Proof.
  unfold rows_labelled. rewrite list_elem_of_filter, elem_of_seq.
  split; [tauto |]. intros Hi. split; [done |].
  apply lookup_lt_Some in Hi. lia.
Qed.

Lemma elem_of_rows_not_labelled labels label i :
  i ∈ rows_not_labelled labels label ↔
  i < length labels ∧ labels !! i ≠ Some label.
Proof.
  unfold rows_not_labelled. rewrite list_elem_of_filter, elem_of_seq.
  split; intros; split; try tauto; lia.
Qed.

Lemma NoDup_rows_labelled labels label : NoDup (rows_labelled labels label).
Proof. apply NoDup_filter, NoDup_seq. Qed.

Lemma partition_of_complement labels label :
  rows (rows_not_labelled labels label) =
  set_seq 0 (length labels) ∖ rows (rows_labelled labels label).
Proof.
  apply set_eq. intros i. unfold rows.
  rewrite elem_of_difference, !elem_of_list_to_set, elem_of_set_seq.
  rewrite elem_of_rows_labelled, elem_of_rows_not_labelled. split.
  - intros [??]. split; [lia | done].
  - intros [??]. split; [lia | done].
Qed.

Lemma rows_labelled_nonempty labels label :
  label ∈ labels → rows_labelled labels label ≠ [].
Proof.
  intros [i Hi]%list_elem_of_lookup Hnil.
  apply elem_of_rows_labelled in Hi. rewrite Hnil in Hi.
  by apply elem_of_nil in Hi.
Qed.

Lemma rows_not_labelled_nonempty labels label other :
  other ∈ labels → other ≠ label → rows_not_labelled labels label ≠ [].
Proof.
  intros [i Hi]%list_elem_of_lookup Hne Hnil.
  assert (i ∈ rows_not_labelled labels label) as Hin.
  { apply elem_of_rows_not_labelled. split; [by eapply lookup_lt_Some |].
    rewrite Hi. congruence. }
  rewrite Hnil in Hin. by apply elem_of_nil in Hin.
Qed.

(** A duplicate-free list with two entries or more has an entry different
    from any given value. *)
Lemma NoDup_other (l : list Z) x :
  NoDup l → 2 ≤ length l → ∃ x', x' ∈ l ∧ x' ≠ x.
Proof.
  intros Hnodup Hlen.
  destruct l as [|a [|b l]]; simpl in Hlen; [lia | lia |].
  apply NoDup_cons in Hnodup as [Hab _].
  destruct (decide (a = x)) as [->|Ha].
  - exists b. split; [right; left |]. intros ->. apply Hab. by left.
  - exists a. split; [by left | done].
Qed.

(** ** Properties of the partitions *)

Section properties.
Context {Feature Target C : Type} `{!ClustererMixin (Feature := Feature) C}.
Implicit Types (self : LocoCV C) (X : @FeatureMatrix Feature).
Implicit Types (y groups : option (list Target)).

(** Whatever [split] yields is the partition of a label that
    [np.unique] found, and then the clusterer gave one label per row and
    at least two distinct labels. *)
Lemma elem_of_yielded_split self X y groups train test :
  let labels := (fit_predict (clusterer self) X).1 in
  (train, test) ∈ yielded (split self X y groups).1 →
  length labels = length X ∧ 2 ≤ length (np_unique labels) ∧
  ∃ label, label ∈ labels ∧ (train, test) = partition_of labels label.
Proof.
  intros labels. rewrite split_run. fold labels.
  destruct (decide (length (np_unique labels) < 2)) as [|Hk]; simpl.
  { by intros ?%elem_of_nil. }
  destruct (decide (length labels = length X)) as [Hn|]; simpl.
  2: { by intros ?%elem_of_nil. }
  rewrite yielded_yield_each.
  intros (label & Heq & Hlabel)%list_elem_of_fmap.
  rewrite elem_of_np_unique in Hlabel.
  split; [done |]. split; [lia |]. by exists label.
Qed.

(** C2: for every partition (train, test) that [split(X)] yields on a
    Feature Matrix with n rows, the train indices are the complement
    [{0, ..., n-1} \ test], train and test are disjoint, and together they
    cover all rows. *)
Theorem split_train_is_complement self X y groups train test :
  (train, test) ∈ yielded (split self X y groups).1 →
  rows train = set_seq 0 (length X) ∖ rows test ∧
  rows train ## rows test ∧
  rows train ∪ rows test = set_seq 0 (length X).
Proof.
  intros (Hn & _ & label & Hlabel & [= -> ->])%elem_of_yielded_split.
  rewrite <-Hn, partition_of_complement.
  assert (rows (rows_labelled (fit_predict (clusterer self) X).1 label)
            ⊆ set_seq 0 (length (fit_predict (clusterer self) X).1)) as Hsub.
  { intros i. unfold rows.
    rewrite elem_of_list_to_set, elem_of_rows_labelled, elem_of_set_seq.
    intros ?%lookup_lt_Some. lia. }
  split; [done |]. split.
  - intros i [_ Hi]%elem_of_difference Hi'. done.
  - rewrite difference_union_L, (comm_L (∪)). by apply subseteq_union_1_L.
Qed.

(** With one label per row and two distinct labels or more, [split]
    yields the partition of every label that [np.unique] lists and
    returns normally. *)
Lemma split_yields_all self X y groups :
  let labels := (fit_predict (clusterer self) X).1 in
  length labels = length X →
  2 ≤ size (distinct_labels labels) →
  (split self X y groups).1 =
    yield_each (partition_of labels) (np_unique labels).
Proof.
  intros labels Hn Hk. rewrite split_run. fold labels.
  rewrite length_np_unique, decide_False by lia.
  by rewrite decide_True.
Qed.

Lemma tests_of_partitions labels order :
  (partition_of labels <$> order).*2 = rows_labelled labels <$> order.
Proof. rewrite <-list_fmap_compose. by apply list_fmap_ext. Qed.

(** C1: when the clusterer gives one label per row of [X] and k >= 2
    distinct labels, one [split(X)] call returns normally after yielding k
    partitions whose test sets are pairwise disjoint and whose union is the
    full index set [{0, ..., n-1}]: every row is in exactly one test set. *)
Theorem split_tests_cover_rows_once self X y groups :
  let labels := (fit_predict (clusterer self) X).1 in
  let run := (split self X y groups).1 in
  let tests := (yielded run).*2 in
  length labels = length X →
  2 ≤ size (distinct_labels labels) →
  raised run = None ∧
  length tests = size (distinct_labels labels) ∧
  (∀ i j t1 t2,
     tests !! i = Some t1 → tests !! j = Some t2 → i ≠ j →
     rows t1 ## rows t2) ∧
  ⋃ (rows <$> tests) = set_seq 0 (length X) ∧
  (∀ r, r < length X →
     ∃ i t, tests !! i = Some t ∧ r ∈ t ∧
       ∀ j t', tests !! j = Some t' → r ∈ t' → j = i).
Proof.
  intros labels run tests Hn Hk. subst tests run.
  rewrite split_yields_all by done. fold labels.
  rewrite raised_yield_each, yielded_yield_each, tests_of_partitions.
  assert (∀ i t, (rows_labelled labels <$> np_unique labels) !! i = Some t →
            ∃ label, np_unique labels !! i = Some label ∧
                     t = rows_labelled labels label) as Hlookup.
  { intros i t. rewrite list_lookup_fmap.
    intros (label & ? & ?)%fmap_Some. by exists label. }
  assert (∀ i j t t' r,
            (rows_labelled labels <$> np_unique labels) !! i = Some t →
            (rows_labelled labels <$> np_unique labels) !! j = Some t' →
            r ∈ t → r ∈ t' → i = j) as Honce.
  { intros i j t t' r (l & Hi & ->)%Hlookup (l' & Hj & ->)%Hlookup.
    rewrite !elem_of_rows_labelled. intros Hr Hr'.
    assert (l = l') as <- by congruence.
    by eapply NoDup_lookup; [apply NoDup_np_unique | |]. }
  assert (∀ r, r < length X →
            ∃ i t, (rows_labelled labels <$> np_unique labels) !! i = Some t
                   ∧ r ∈ t) as Hcover.
  { intros r Hr. rewrite <-Hn in Hr.
    destruct (lookup_lt_is_Some_2 labels r Hr) as [label Hlabel].
    assert (label ∈ np_unique labels) as [i Hi]%list_elem_of_lookup.
    { apply elem_of_np_unique. by eapply list_elem_of_lookup_2. }
    exists i, (rows_labelled labels label). split.
    - by rewrite list_lookup_fmap, Hi.
    - by apply elem_of_rows_labelled. }
  split; [done |]. split; [by rewrite length_fmap, length_np_unique |].
  split; [| split].
  - intros i j t1 t2 Hi Hj Hne r Hr1 Hr2.
    apply elem_of_list_to_set in Hr1, Hr2.
    by apply Hne, (Honce i j t1 t2 r).
  - apply set_eq. intros r. rewrite elem_of_union_list, elem_of_set_seq. split.
    + intros (T & (t & -> & Ht)%list_elem_of_fmap & Hr%elem_of_list_to_set).
      apply list_elem_of_lookup in Ht as [i (l & _ & ->)%Hlookup].
      apply elem_of_rows_labelled, lookup_lt_Some in Hr. lia.
    + intros [_ Hr]. destruct (Hcover r) as (i & t & Hi & Hrt); [lia |].
      exists (rows t). split.
      * apply list_elem_of_fmap. exists t. split; [done |].
        by eapply list_elem_of_lookup_2.
      * by apply elem_of_list_to_set.
  - intros r Hr. destruct (Hcover r Hr) as (i & t & Hi & Hrt).
    exists i, t. split; [done |]. split; [done |].
    intros j t' Hj Hrt'. by apply (Honce j i t' t r).
Qed.

(** C10: every partition that [split(X)] yields has a nonempty test set
    and a nonempty train set. *)
Theorem split_partitions_nonempty self X y groups train test :
  (train, test) ∈ yielded (split self X y groups).1 →
  test ≠ [] ∧ train ≠ [].
Proof.
  intros (_ & Hk & label & Hlabel & [= -> ->])%elem_of_yielded_split.
  split; [by apply rows_labelled_nonempty |].
  destruct (NoDup_other _ label (NoDup_np_unique _) Hk)
    as (other & Hother & Hne).
  rewrite elem_of_np_unique in Hother.
  by eapply rows_not_labelled_nonempty.
Qed.

Lemma split_raises_below_two self X y groups :
  size (distinct_labels (fit_predict (clusterer self) X).1) < 2 →
  (split self X y groups).1 = Raise insufficient_clusters.
Proof.
  intros Hk. rewrite split_run, length_np_unique.
  by rewrite decide_True.
Qed.

(** C3: when the clusterer returns fewer than 2 distinct labels on [X],
    [split(X)] ends with the insufficient-clusters [ValueError] and has
    yielded no partition before. *)
Theorem split_insufficient_clusters self X y groups :
  size (distinct_labels (fit_predict (clusterer self) X).1) < 2 →
  (split self X y groups).1 = Raise insufficient_clusters ∧
  yielded (split self X y groups).1 = [] ∧
  raised (split self X y groups).1 = Some insufficient_clusters.
Proof. intros Hk. by rewrite split_raises_below_two. Qed.

(** C4, as amended: with one label per row and two distinct labels or
    more, [split(X)] yields the partitions of the distinct labels in
    ascending order of the label values. *)
Theorem split_order_ascending self X y groups :
  let labels := (fit_predict (clusterer self) X).1 in
  length labels = length X →
  2 ≤ size (distinct_labels labels) →
  ∃ order,
    StronglySorted Z.lt order ∧
    (∀ label, label ∈ order ↔ label ∈ labels) ∧
    yielded (split self X y groups).1 = partition_of labels <$> order.
Proof.
  intros labels Hn Hk. exists (np_unique labels).
  split; [apply np_unique_sorted |].
  split; [intros label; apply elem_of_np_unique |].
  rewrite split_yields_all by done. apply yielded_yield_each.
Qed.

Lemma get_n_splits_count self X y groups :
  (get_n_splits self X y groups).1 =
  size (distinct_labels (fit_predict (clusterer self) X).1).
Proof.
  unfold get_n_splits.
  destruct (fit_predict (clusterer self) X); simpl. apply length_np_unique.
Qed.

Lemma get_n_splits_fitted self X y groups :
  (get_n_splits self X y groups).2 =
  __init__ (fit_predict (clusterer self) X).2.
Proof. unfold get_n_splits. by destruct (fit_predict (clusterer self) X). Qed.

(** C5, as amended: for a deterministic clusterer that gives one label per
    row of [X] and two distinct labels or more, [get_n_splits(X)] returns
    the number of distinct labels, and the [split(X)] call that follows
    returns normally after yielding that many partitions. *)
Theorem get_n_splits_then_split self X y groups :
  let labels := (fit_predict (clusterer self) X).1 in
  let n_splits := (get_n_splits self X y groups).1 in
  let run := (split (get_n_splits self X y groups).2 X y groups).1 in
  deterministic (clusterer self) →
  length labels = length X →
  2 ≤ size (distinct_labels labels) →
  n_splits = size (distinct_labels labels) ∧
  raised run = None ∧
  length (yielded run) = n_splits.
Proof.
  intros labels n_splits run Hdet Hn Hk. subst n_splits run.
  rewrite get_n_splits_count, get_n_splits_fitted. fold labels.
  set (fitted := (fit_predict (clusterer self) X).2).
  assert ((fit_predict (clusterer (__init__ fitted)) X).1 = labels) as Hsame
    by apply Hdet.
  rewrite split_yields_all; rewrite Hsame; [| done | done].
  rewrite raised_yield_each, yielded_yield_each, length_fmap.
  by rewrite length_np_unique.
Qed.

(** C6: [get_n_splits(X)] has no guard: also when the clusterer returns
    fewer than 2 distinct labels it returns their number, where
    [split(X)] on the same object ends with the [ValueError]. *)
Theorem get_n_splits_below_two self X y groups :
  let labels := (fit_predict (clusterer self) X).1 in
  size (distinct_labels labels) < 2 →
  (get_n_splits self X y groups).1 = size (distinct_labels labels) ∧
  (split self X y groups).1 = Raise insufficient_clusters.
Proof.
  intros labels Hk. split; [apply get_n_splits_count |].
  by apply split_raises_below_two.
Qed.

End properties.

(** ** The stub clusterer and the cases of the specification *)

Lemma stub_deterministic {Feature} labels :
  deterministic (Feature := Feature) (Stub labels).
Proof. by intros X X'. Qed.

Section cases.
Context {Feature Target : Type}.
Implicit Types (X : @FeatureMatrix Feature) (y groups : option (list Target)).

(** C7: on a Feature Matrix with 4 rows and the stub labels [0,0,1,1],
    [split(X)] yields exactly the two partitions (train [2,3], test [0,1])
    and (train [0,1], test [2,3]), and returns. *)
Theorem split_two_clusters X y groups :
  length X = 4 →
  (split (__init__ (Stub [0; 0; 1; 1]%Z)) X y groups).1 =
  Yield ([2; 3], [0; 1]) (Yield ([0; 1], [2; 3]) Stop).
Proof.
  intros Hn. rewrite split_run. simpl. rewrite Hn. reflexivity.
Qed.

(** C8: on a Feature Matrix with 3 rows and the stub labels [0,1,1],
    [split(X)] raises nothing and yields the partition with test [0],
    train [1,2] and the partition with test [1,2], train [0]. *)
Theorem split_singleton_cluster X y groups :
  length X = 3 →
  (split (__init__ (Stub [0; 1; 1]%Z)) X y groups).1 =
  Yield ([1; 2], [0]) (Yield ([0], [1; 2]) Stop).
Proof.
  intros Hn. rewrite split_run. simpl. rewrite Hn. reflexivity.
Qed.
End cases.

(** Without determinism the two methods can disagree: the clusterer is fit
    again by each of them. *)
Lemma drifting_counts_disagree :
  let self := __init__ (Drifting 0) in
  let X : @FeatureMatrix Z := [[10]; [20]; [30]]%Z in
  let n_splits := (get_n_splits (Target := Z) self X None None).1 in
  let run :=
    (split (Target := Z) (get_n_splits (Target := Z) self X None None).2
       X None None).1 in
  ¬ deterministic (Feature := Z) (clusterer self) ∧
  n_splits = 2 ∧ raised run = None ∧ length (yielded run) = 3.
Proof.
  cbv zeta. split; [| by vm_compute].
  intros Hdet. specialize (Hdet [[10]; [20]; [30]]%Z [[10]; [20]; [30]]%Z).
  vm_compute in Hdet. discriminate.
Qed.

(** ** Where the code departs from the specification *)

(** C4 fails as stated: for the labels [1, 0] the first partition that
    [split] yields tests row 1 (label 0, the smaller value), where the order
    of first appearance would test row 0 (label 1) first. *)
Lemma split_order_not_first_appearance :
  let labels := [1; 0]%Z in
  let X : @FeatureMatrix Z := [[10]; [20]]%Z in
  let partitions :=
    yielded (split (Target := Z) (__init__ (Stub labels)) X None None).1 in
  partitions = [([0], [1]); ([1], [0])] ∧
  partition_of labels <$> first_appearance labels = [([1], [0]); ([0], [1])] ∧
  partitions ≠ partition_of labels <$> first_appearance labels.
Proof. vm_compute. repeat split; discriminate. Qed.

(** C5 fails as stated: for a deterministic clusterer that puts every row in
    one cluster, [get_n_splits] returns 1 and the [split] call that follows
    raises without yielding a partition. *)
Lemma count_disagrees_on_single_cluster :
  let self := __init__ (Stub [0; 0; 0]%Z) in
  let X : @FeatureMatrix Z := [[10]; [20]; [30]]%Z in
  let n_splits := (get_n_splits (Target := Z) self X None None).1 in
  let run :=
    (split (Target := Z) (get_n_splits (Target := Z) self X None None).2
       X None None).1 in
  deterministic (Feature := Z) (clusterer self) ∧
  n_splits = 1 ∧
  run = Raise insufficient_clusters ∧
  length (yielded run) ≠ n_splits.
Proof.
  cbv zeta. split; [apply stub_deterministic |].
  vm_compute. repeat split; discriminate.
Qed.

(** ** The theorems at concrete inputs *)

Lemma split_tests_cover_rows_once_witness :
  let self := __init__ (Stub [0; 0; 1; 1]%Z) in
  let X : @FeatureMatrix Z := [[10]; [20]; [30]; [40]]%Z in
  let labels := (fit_predict (clusterer self) X).1 in
  let run := (split (Target := Z) self X None None).1 in
  let tests := (yielded run).*2 in
  length labels = length X ∧
  2 ≤ size (distinct_labels labels) ∧
  raised run = None ∧
  length tests = size (distinct_labels labels) ∧
  (∀ i j t1 t2,
     tests !! i = Some t1 → tests !! j = Some t2 → i ≠ j →
     rows t1 ## rows t2) ∧
  ⋃ (rows <$> tests) = set_seq 0 (length X) ∧
  (∀ r, r < length X →
     ∃ i t, tests !! i = Some t ∧ r ∈ t ∧
       ∀ j t', tests !! j = Some t' → r ∈ t' → j = i).
Proof.
  cbv zeta. split; [reflexivity |]. split; [vm_compute; lia |].
  apply (split_tests_cover_rows_once (Target := Z)
           (__init__ (Stub [0; 0; 1; 1]%Z)) [[10]; [20]; [30]; [40]]%Z);
    [reflexivity | vm_compute; lia].
Defined.

Lemma split_train_is_complement_witness :
  let X : @FeatureMatrix Z := [[10]; [20]; [30]; [40]]%Z in
  let run :=
    (split (Target := Z) (__init__ (Stub [0; 0; 1; 1]%Z)) X None None).1 in
  ([2; 3], [0; 1]) ∈ yielded run ∧
  rows [2; 3] = set_seq 0 4 ∖ rows [0; 1] ∧
  rows [2; 3] ## rows [0; 1] ∧
  rows [2; 3] ∪ rows [0; 1] = set_seq 0 4.
Proof.
  cbv zeta.
  assert (([2; 3], [0; 1]) ∈
          yielded (split (Target := Z) (__init__ (Stub [0; 0; 1; 1]%Z))
                     ([[10]; [20]; [30]; [40]]%Z : @FeatureMatrix Z)
                     None None).1) as Hin.
  { vm_compute. constructor. }
  split; [exact Hin |].
  exact (split_train_is_complement _ _ _ _ _ _ Hin).
Defined.

Lemma split_partitions_nonempty_witness :
  let X : @FeatureMatrix Z := [[10]; [20]; [30]]%Z in
  let run :=
    (split (Target := Z) (__init__ (Stub [0; 1; 1]%Z)) X None None).1 in
  ([1; 2], [0]) ∈ yielded run ∧ [0] ≠ [] ∧ [1; 2] ≠ [].
Proof.
  cbv zeta.
  assert (([1; 2], [0]) ∈
          yielded (split (Target := Z) (__init__ (Stub [0; 1; 1]%Z))
                     ([[10]; [20]; [30]]%Z : @FeatureMatrix Z) None None).1)
    as Hin.
  { vm_compute. constructor. }
  split; [exact Hin |].
  exact (split_partitions_nonempty _ _ _ _ _ _ Hin).
Defined.

Lemma split_insufficient_clusters_witness :
  let self := __init__ (Stub [5; 5; 5]%Z) in
  let X : @FeatureMatrix Z := [[10]; [20]; [30]]%Z in
  let run := (split (Target := Z) self X None None).1 in
  size (distinct_labels (fit_predict (clusterer self) X).1) < 2 ∧
  run = Raise insufficient_clusters ∧
  yielded run = [] ∧
  raised run = Some insufficient_clusters.
Proof.
  cbv zeta. split; [vm_compute; lia |].
  apply (split_insufficient_clusters (Target := Z)
           (__init__ (Stub [5; 5; 5]%Z)) [[10]; [20]; [30]]%Z).
  vm_compute; lia.
Defined.

Lemma split_order_ascending_witness :
  let self := __init__ (Stub [1; 0]%Z) in
  let X : @FeatureMatrix Z := [[10]; [20]]%Z in
  let labels := (fit_predict (clusterer self) X).1 in
  length labels = length X ∧
  2 ≤ size (distinct_labels labels) ∧
  ∃ order,
    StronglySorted Z.lt order ∧
    (∀ label, label ∈ order ↔ label ∈ labels) ∧
    yielded (split (Target := Z) self X None None).1 =
      partition_of labels <$> order.
Proof.
  cbv zeta. split; [reflexivity |]. split; [vm_compute; lia |].
  apply (split_order_ascending (Target := Z)
           (__init__ (Stub [1; 0]%Z)) [[10]; [20]]%Z);
    [reflexivity | vm_compute; lia].
Defined.

Lemma get_n_splits_then_split_witness :
  let self := __init__ (Stub [0; 1; 1]%Z) in
  let X : @FeatureMatrix Z := [[10]; [20]; [30]]%Z in
  let labels := (fit_predict (clusterer self) X).1 in
  let n_splits := (get_n_splits (Target := Z) self X None None).1 in
  let run :=
    (split (Target := Z) (get_n_splits (Target := Z) self X None None).2
       X None None).1 in
  deterministic (Feature := Z) (clusterer self) ∧
  length labels = length X ∧
  2 ≤ size (distinct_labels labels) ∧
  n_splits = size (distinct_labels labels) ∧
  raised run = None ∧
  length (yielded run) = n_splits.
Proof.
  cbv zeta. split; [apply stub_deterministic |].
  split; [reflexivity |]. split; [vm_compute; lia |].
  apply (get_n_splits_then_split (Target := Z)
           (__init__ (Stub [0; 1; 1]%Z)) [[10]; [20]; [30]]%Z);
    [apply stub_deterministic | reflexivity | vm_compute; lia].
Defined.

Lemma get_n_splits_below_two_witness :
  let self := __init__ (Stub [7; 7; 7]%Z) in
  let X : @FeatureMatrix Z := [[10]; [20]; [30]]%Z in
  let labels := (fit_predict (clusterer self) X).1 in
  size (distinct_labels labels) < 2 ∧
  (get_n_splits (Target := Z) self X None None).1 =
    size (distinct_labels labels) ∧
  (split (Target := Z) self X None None).1 = Raise insufficient_clusters.
Proof.
  cbv zeta. split; [vm_compute; lia |].
  apply (get_n_splits_below_two (Target := Z)
           (__init__ (Stub [7; 7; 7]%Z)) [[10]; [20]; [30]]%Z).
  vm_compute; lia.
Defined.

Lemma split_two_clusters_witness :
  let X : @FeatureMatrix Z := [[10]; [20]; [30]; [40]]%Z in
  length X = 4 ∧
  (split (Target := Z) (__init__ (Stub [0; 0; 1; 1]%Z)) X None None).1 =
  Yield ([2; 3], [0; 1]) (Yield ([0; 1], [2; 3]) Stop).
Proof.
  cbv zeta. split; [reflexivity |].
  apply (split_two_clusters (Target := Z) [[10]; [20]; [30]; [40]]%Z).
  reflexivity.
Defined.

Lemma split_singleton_cluster_witness :
  let X : @FeatureMatrix Z := [[10]; [20]; [30]]%Z in
  length X = 3 ∧
  (split (Target := Z) (__init__ (Stub [0; 1; 1]%Z)) X None None).1 =
  Yield ([1; 2], [0]) (Yield ([0], [1; 2]) Stop).
Proof.
  cbv zeta. split; [reflexivity |].
  apply (split_singleton_cluster (Target := Z) [[10]; [20]; [30]]%Z).
  reflexivity.
Defined.


(** * Further properties of the splitter *)

(** ** Sorted label lists *)

Lemma length_np_unique_le ar : length (np_unique ar) ≤ length ar.
Proof.
  apply submseteq_length, NoDup_submseteq; [apply NoDup_np_unique |].
  intros x. by rewrite elem_of_np_unique.
Qed.

Lemma np_unique_nil ar : np_unique ar = [] ↔ ar = [].
Proof.
  split; [| by intros ->].
  intros Hnil. destruct ar as [|a ar]; [done |].
  assert (a ∈ np_unique (a :: ar)) as Ha by (apply elem_of_np_unique; left).
  rewrite Hnil in Ha. by apply elem_of_nil in Ha.
Qed.

Lemma StronglySorted_lt_seq start n : StronglySorted lt (seq start n).
Proof.
  revert start. induction n as [|n IH]; intros start; simpl; constructor.
  - apply IH.
  - apply Forall_forall. intros i [Hi _]%elem_of_seq. lia.
Qed.

Lemma StronglySorted_filter {A} (R : relation A) (P : A → Prop)
    `{!∀ x, Decision (P x)} (l : list A) :
  StronglySorted R l → StronglySorted R (filter P l).
Proof.
  induction 1 as [|x l _ IH Hx]; [constructor |].
  rewrite filter_cons. destruct (decide (P x)); [| done].
  constructor; [done |].
  rewrite Forall_forall in Hx. apply Forall_forall.
  intros x' [_ Hx']%list_elem_of_filter. by apply Hx.
Qed.

(** ** When a run of [split] completes *)

Section completion.
Context {Feature Target C : Type} `{!ClustererMixin (Feature := Feature) C}.
Implicit Types (self : LocoCV C) (X : @FeatureMatrix Feature).
Implicit Types (y groups : option (list Target)).

(** A run of [split] that did not raise has seen one label per row and two
    distinct labels or more, and has yielded the partition of each. *)
Lemma split_completed self X y groups :
  let labels := (fit_predict (clusterer self) X).1 in
  raised (split self X y groups).1 = None →
  length labels = length X ∧ 2 ≤ length (np_unique labels) ∧
  (split self X y groups).1 =
    yield_each (partition_of labels) (np_unique labels).
Proof.
  intros labels. rewrite split_run. fold labels.
  destruct (decide (length (np_unique labels) < 2)); [done |].
  destruct (decide (length labels = length X)); [| done].
  intros _. split; [done |]. split; [lia | done].
Qed.

(** The loop of [split] ends without an exception exactly when the
    clusterer has returned one label per row of [X] and at least two
    distinct labels. *)
Lemma split_loop_completes_iff self X y groups :
  let labels := (fit_predict (clusterer self) X).1 in
  raised (split self X y groups).1 = None ↔
  length labels = length X ∧ 2 ≤ size (distinct_labels labels).
Proof.
  intros labels. split.
  - intros (Hn & Hk & _)%split_completed. fold labels in Hn, Hk.
    by rewrite <-length_np_unique.
  - intros [Hn Hk]. rewrite split_yields_all by done.
    apply raised_yield_each.
Qed.

(** X2: [split(X)] is all or nothing. Either the run is an exception with
    no partition yielded before it, or it returns normally after at least
    two and at most n partitions, where n is the number of rows of [X]; it
    never yields exactly one partition and never fails half way. *)
Theorem split_all_or_nothing self X y groups :
  let run := (split self X y groups).1 in
  (∃ e, run = Raise e) ∨
  (raised run = None ∧ 2 ≤ length (yielded run) ≤ length X).
Proof.
  intros run. subst run. rewrite split_run.
  set (labels := (fit_predict (clusterer self) X).1).
  destruct (decide (length (np_unique labels) < 2)); [left; by eexists |].
  destruct (decide (length labels = length X)) as [Hn|]; [| left; by eexists].
  right. rewrite raised_yield_each, yielded_yield_each, length_fmap.
  split; [done |]. split; [lia |].
  rewrite <-Hn. apply length_np_unique_le.
Qed.

(** X10: [get_n_splits(X)] never exceeds the number of labels the clusterer
    returned, and it is 0 only when the clusterer returned no label at
    all. *)
Theorem get_n_splits_bounds self X y groups :
  let labels := (fit_predict (clusterer self) X).1 in
  let n_splits := (get_n_splits self X y groups).1 in
  n_splits ≤ length labels ∧ (n_splits = 0 ↔ labels = []).
Proof.
  intros labels n_splits. subst n_splits labels. unfold get_n_splits.
  destruct (fit_predict (clusterer self) X) as [labels fitted]; simpl.
  split; [apply length_np_unique_le |].
  by rewrite length_zero_iff_nil, np_unique_nil.
Qed.

(** X1: when the clusterer returns two distinct labels or more,
    [_iter_test_masks] yields masks that are as long as the label sequence,
    and at every position exactly one of the masks is true, whatever [X]
    is. *)
Theorem iter_test_masks_one_true_per_row self X y groups :
  let labels := (fit_predict (clusterer self) X).1 in
  let masks := yielded (_iter_test_masks self X y groups).1 in
  2 ≤ size (distinct_labels labels) →
  (∀ mask, mask ∈ masks → length mask = length labels) ∧
  (∀ i, i < length labels →
     ∃ j mask, masks !! j = Some mask ∧ mask !! i = Some true ∧
       ∀ j' mask', masks !! j' = Some mask' → mask' !! i = Some true →
         j' = j).
Proof.
  intros labels masks Hk. subst masks labels. unfold _iter_test_masks.
  destruct (fit_predict (clusterer self) X) as [labels fitted]; simpl in *.
  rewrite <-length_np_unique in Hk.
  rewrite decide_False by lia. rewrite yielded_yield_each.
  assert (∀ j mask, (eq_mask labels <$> np_unique labels) !! j = Some mask →
            ∃ label, np_unique labels !! j = Some label ∧
                     mask = eq_mask labels label) as Hlookup.
  { intros j mask. rewrite list_lookup_fmap.
    intros (label & ? & ?)%fmap_Some. by exists label. }
  split.
  - intros mask (label & -> & _)%list_elem_of_fmap. apply length_eq_mask.
  - intros i Hi.
    destruct (lookup_lt_is_Some_2 labels i Hi) as [label Hlabel].
    assert (label ∈ np_unique labels) as [j Hj]%list_elem_of_lookup.
    { apply elem_of_np_unique. by eapply list_elem_of_lookup_2. }
    exists j, (eq_mask labels label). split; [| split].
    + by rewrite list_lookup_fmap, Hj.
    + by apply lookup_eq_mask.
    + intros j' mask' (label' & Hj' & ->)%Hlookup Htrue.
      apply lookup_eq_mask in Htrue.
      assert (label' = label) as -> by congruence.
      by eapply NoDup_lookup; [apply NoDup_np_unique | |].
Qed.
End completion.

(** ** The folds as clusters *)

Lemma rows_labelled_sorted labels label :
  StronglySorted lt (rows_labelled labels label).
Proof. apply StronglySorted_filter, StronglySorted_lt_seq. Qed.

Lemma rows_not_labelled_sorted labels label :
  StronglySorted lt (rows_not_labelled labels label).
Proof. apply StronglySorted_filter, StronglySorted_lt_seq. Qed.

Lemma length_partition_of labels label :
  length (rows_not_labelled labels label) + length (rows_labelled labels label)
  = length labels.
Proof.
  pose proof (filter_app_complement (λ i, labels !! i = Some label)
                (seq 0 (length labels))) as Hperm.
  apply Permutation_length in Hperm.
  rewrite length_app, length_seq in Hperm.
  unfold rows_labelled, rows_not_labelled. lia.
Qed.

Lemma elem_of_join_rows_labelled labels order i :
  i ∈ mjoin (rows_labelled labels <$> order) ↔
  ∃ label, label ∈ order ∧ labels !! i = Some label.
Proof.
  rewrite list_elem_of_join. split.
  - intros (t & Hi & (label & -> & Hlabel)%list_elem_of_fmap).
    exists label. split; [done |]. by apply elem_of_rows_labelled.
  - intros (label & Hlabel & Hi). exists (rows_labelled labels label).
    split; [by apply elem_of_rows_labelled |].
    by apply list_elem_of_fmap_2.
Qed.

Lemma NoDup_join_rows_labelled labels order :
  NoDup order → NoDup (mjoin (rows_labelled labels <$> order)).
Proof.
  induction 1 as [|label order Hfresh _ IH]; csimpl; [constructor |].
  apply NoDup_app. split; [apply NoDup_rows_labelled |]. split; [| done].
  intros i Hi%elem_of_rows_labelled Hjoin.
  apply elem_of_join_rows_labelled in Hjoin as (label' & Hlabel' & Hi').
  apply Hfresh. congruence.
Qed.

(** The test sets of all distinct labels, one after the other, are the row
    indices, each once. *)
Lemma join_rows_labelled_np_unique labels :
  mjoin (rows_labelled labels <$> np_unique labels) ≡ₚ seq 0 (length labels).
Proof.
  apply NoDup_Permutation.
  - apply NoDup_join_rows_labelled, NoDup_np_unique.
  - apply NoDup_seq.
  - intros i. rewrite elem_of_join_rows_labelled, elem_of_seq. split.
    + intros (label & _ & Hi%lookup_lt_Some). lia.
    + intros [_ Hi]. destruct (lookup_lt_is_Some_2 labels i) as [label Hlabel];
        [lia |].
      exists label. split; [| done].
      apply elem_of_np_unique. by eapply list_elem_of_lookup_2.
Qed.



Section folds.
Context {Feature Target C : Type} `{!ClustererMixin (Feature := Feature) C}.
Implicit Types (self : LocoCV C) (X : @FeatureMatrix Feature).
Implicit Types (y groups : option (list Target)).

(** X4: a test set that [split(X)] yields is one whole cluster: a row
    belongs to the test set of a row i exactly when the clusterer gave it
    the label of row i. *)
Theorem split_test_is_one_cluster self X y groups train test i j :
  let labels := (fit_predict (clusterer self) X).1 in
  (train, test) ∈ yielded (split self X y groups).1 →
  i ∈ test →
  j ∈ test ↔ j < length X ∧ labels !! j = labels !! i.
Proof.
  intros labels (Hn & _ & label & _ & [= -> ->])%elem_of_yielded_split.
  fold labels in Hn |- *. rewrite !elem_of_rows_labelled. intros ->.
  split; [| tauto].
  intros Hj. split; [| done]. apply lookup_lt_Some in Hj. lia.
Qed.

(** X5: in every partition that [split(X)] yields, the train indices and
    the test indices are in strictly increasing order, and the two sizes
    add up to the number of rows of [X]. *)
Theorem split_indices_sorted self X y groups train test :
  (train, test) ∈ yielded (split self X y groups).1 →
  StronglySorted lt train ∧ StronglySorted lt test ∧
  length train + length test = length X.
Proof.
  intros (Hn & _ & label & _ & [= -> ->])%elem_of_yielded_split.
  split; [apply rows_not_labelled_sorted |].
  split; [apply rows_labelled_sorted |].
  rewrite <-Hn. apply length_partition_of.
Qed.

(** X6: when [split(X)] completes, the test sets it has yielded, written one
    after the other, are a permutation of the row indices 0, ..., n-1: over
    the whole Split Sequence every row is tested once, counted with
    multiplicity. *)
Theorem split_tests_permute_rows self X y groups :
  let run := (split self X y groups).1 in
  raised run = None →
  mjoin (yielded run).*2 ≡ₚ seq 0 (length X).
Proof.
  intros run (Hn & _ & Hrun)%split_completed. subst run.
  rewrite Hrun, yielded_yield_each, tests_of_partitions, <-Hn.
  apply join_rows_labelled_np_unique.
Qed.
End folds.

(** ** Renaming the cluster labels *)

Lemma rows_labelled_fmap (f : Z → Z) `{!Inj (=) (=) f} labels label :
  rows_labelled (f <$> labels) (f label) = rows_labelled labels label.
Proof.
  unfold rows_labelled. rewrite length_fmap.
  apply filter_ext_elem_of. intros i _. rewrite list_lookup_fmap.
  destruct (labels !! i) as [l|]; simpl; [| done].
  split; [intros [= Heq]; by apply (inj f) in Heq as -> | by intros [= ->]].
Qed.

Lemma rows_not_labelled_fmap (f : Z → Z) `{!Inj (=) (=) f} labels label :
  rows_not_labelled (f <$> labels) (f label) = rows_not_labelled labels label.
Proof.
  unfold rows_not_labelled. rewrite length_fmap.
  apply filter_ext_elem_of. intros i _. rewrite list_lookup_fmap.
  destruct (labels !! i) as [l|]; simpl; [| done].
  split; intros Hne Heq; apply Hne.
  - by injection Heq as ->.
  - injection Heq as Heq. by apply (inj f) in Heq as ->.
Qed.

Lemma partition_of_fmap (f : Z → Z) `{!Inj (=) (=) f} labels label :
  partition_of (f <$> labels) (f label) = partition_of labels label.
Proof.
  unfold partition_of. by rewrite rows_labelled_fmap, rows_not_labelled_fmap.
Qed.

Lemma np_unique_fmap_Permutation (f : Z → Z) `{!Inj (=) (=) f} labels :
  np_unique (f <$> labels) ≡ₚ f <$> np_unique labels.
Proof.
  apply NoDup_Permutation.
  - apply NoDup_np_unique.
  - apply NoDup_fmap_2; [done | apply NoDup_np_unique].
  - intros x. rewrite elem_of_np_unique, !list_elem_of_fmap.
    by setoid_rewrite elem_of_np_unique.
Qed.

Lemma increasing_inj (f : Z → Z) :
  (∀ a b, (a < b)%Z → (f a < f b)%Z) → Inj (=) (=) f.
Proof.
  intros Hmono a b Heq.
  destruct (Z.lt_trichotomy a b) as [Hlt|[?|Hlt]]; [| done |];
    apply Hmono in Hlt; lia.
Qed.

Lemma np_unique_fmap_increasing (f : Z → Z) labels :
  (∀ a b, (a < b)%Z → (f a < f b)%Z) →
  np_unique (f <$> labels) = f <$> np_unique labels.
Proof.
  intros Hmono. pose proof (increasing_inj f Hmono) as Hinj.
  apply (StronglySorted_unique_strong Z.lt).
  - intros a b _ _ ??. lia.
  - apply np_unique_sorted.
  - by apply (StronglySorted_fmap _ Z.lt Z.lt), np_unique_sorted.
  - by apply np_unique_fmap_Permutation.
Qed.

Section relabelling.
Context {Feature Target C1 C2 : Type}.
Context `{!ClustererMixin (Feature := Feature) C1}.
Context `{!ClustererMixin (Feature := Feature) C2}.
Implicit Types (X : @FeatureMatrix Feature) (y groups : option (list Target)).

(** X9: the names of the clusters do not matter. When a second clusterer
    returns the labels of the first renamed by an injective map,
    [get_n_splits] returns the same number, [split] ends the same way, and
    it yields the same partitions up to their order. *)
Theorem split_relabel_injective (self1 : LocoCV C1) (self2 : LocoCV C2)
    (f : Z → Z) X y groups :
  let run1 := (split self1 X y groups).1 in
  let run2 := (split self2 X y groups).1 in
  Inj (=) (=) f →
  (fit_predict (clusterer self2) X).1 =
    f <$> (fit_predict (clusterer self1) X).1 →
  (get_n_splits self2 X y groups).1 = (get_n_splits self1 X y groups).1 ∧
  raised run2 = raised run1 ∧
  yielded run2 ≡ₚ yielded run1.
Proof.
  intros run1 run2 Hinj Hlabels. subst run1 run2.
  rewrite !get_n_splits_count, !split_run, Hlabels.
  set (labels := (fit_predict (clusterer self1) X).1).
  pose proof (np_unique_fmap_Permutation f labels) as Hperm.
  assert (length (np_unique (f <$> labels)) = length (np_unique labels)) as Hk.
  { by rewrite Hperm, length_fmap. }
  rewrite <-!length_np_unique, Hk, length_fmap. split; [done |].
  destruct (decide (length (np_unique labels) < 2)); [done |].
  destruct (decide (length labels = length X)); [| done].
  rewrite !raised_yield_each, !yielded_yield_each. split; [done |].
  rewrite Hperm, <-list_fmap_compose.
  rewrite (list_fmap_ext (partition_of (f <$> labels) ∘ f)
             (partition_of labels)); [done |].
  intros i label _. simpl. by apply partition_of_fmap.
Qed.

(** X8: when the renaming of the labels is strictly increasing (a shift of
    the label numbers, say), the run of [split] is the same: the same
    partitions in the same order, or the same exception. *)
Theorem split_relabel_increasing (self1 : LocoCV C1) (self2 : LocoCV C2)
    (f : Z → Z) X y groups :
  (∀ a b, (a < b)%Z → (f a < f b)%Z) →
  (fit_predict (clusterer self2) X).1 =
    f <$> (fit_predict (clusterer self1) X).1 →
  (split self2 X y groups).1 = (split self1 X y groups).1.
Proof.
  intros Hmono Hlabels. pose proof (increasing_inj f Hmono) as Hinj.
  rewrite !split_run, Hlabels.
  set (labels := (fit_predict (clusterer self1) X).1).
  rewrite np_unique_fmap_increasing, !length_fmap by done.
  destruct (decide (length (np_unique labels) < 2)); [done |].
  destruct (decide (length labels = length X)); [| done].
  generalize (np_unique labels). intros order.
  induction order as [|label order IH]; csimpl; [done |].
  by rewrite partition_of_fmap, IH.
Qed.
End relabelling.

(** ** Two corner cases: all labels distinct, and two clusters *)

Lemma length_rows_labelled_NoDup labels label :
  NoDup labels → label ∈ labels → length (rows_labelled labels label) = 1.
Proof.
  intros Hnodup [i Hi]%list_elem_of_lookup.
  assert (∀ j, j ∈ rows_labelled labels label → j = i) as Hall.
  { intros j Hj%elem_of_rows_labelled. by eapply NoDup_lookup. }
  pose proof (NoDup_rows_labelled labels label) as Hrows.
  apply elem_of_rows_labelled in Hi.
  destruct (rows_labelled labels label) as [|a [|b rest]].
  - by apply elem_of_nil in Hi.
  - done.
  - apply NoDup_cons in Hrows as [Hab _]. destruct Hab.
    rewrite (Hall a), (Hall b); [left | right; left | left].
Qed.

Lemma rows_not_labelled_other labels l1 l2 :
  l1 ≠ l2 → (∀ l, l ∈ labels → l = l1 ∨ l = l2) →
  rows_not_labelled labels l1 = rows_labelled labels l2.
Proof.
  intros Hne Htwo. unfold rows_not_labelled, rows_labelled.
  apply filter_ext_elem_of. intros i [_ Hi]%elem_of_seq.
  destruct (lookup_lt_is_Some_2 labels i) as [l Hl]; [lia |].
  rewrite Hl. destruct (Htwo l) as [->| ->].
  - by eapply list_elem_of_lookup_2.
  - split; [done | congruence].
  - split; [done | congruence].
Qed.

Section corner_cases.
Context {Feature Target C : Type} `{!ClustererMixin (Feature := Feature) C}.
Implicit Types (self : LocoCV C) (X : @FeatureMatrix Feature).
Implicit Types (y groups : option (list Target)).

(** X11: when the clusterer puts every row of [X] in a cluster of its own
    (n >= 2 pairwise distinct labels), [split(X)] is leave-one-out: it
    completes after n partitions, each with one test row and n-1 train
    rows. *)
Theorem split_distinct_labels_leave_one_out self X y groups :
  let labels := (fit_predict (clusterer self) X).1 in
  let run := (split self X y groups).1 in
  NoDup labels →
  length labels = length X →
  2 ≤ length X →
  raised run = None ∧
  length (yielded run) = length X ∧
  ∀ train test, (train, test) ∈ yielded run →
    length test = 1 ∧ length train = length X - 1.
Proof.
  intros labels run Hnodup Hn Hrows. subst run.
  assert (size (distinct_labels labels) = length X) as Hk.
  { unfold distinct_labels. by rewrite size_list_to_set. }
  rewrite split_yields_all by (done || fold labels; lia). fold labels.
  rewrite raised_yield_each, yielded_yield_each, length_fmap.
  rewrite length_np_unique. split; [done |]. split; [done |].
  intros train test (label & [= -> ->] & Hlabel)%list_elem_of_fmap.
  rewrite elem_of_np_unique in Hlabel.
  pose proof (length_partition_of labels label) as Hsum.
  rewrite length_rows_labelled_NoDup in * by done. lia.
Qed.

(** X12: with exactly two clusters the two partitions mirror each other:
    the train set of one is the test set of the other. *)
Theorem split_two_clusters_mirror self X y groups :
  let labels := (fit_predict (clusterer self) X).1 in
  length labels = length X →
  size (distinct_labels labels) = 2 →
  ∃ first second,
    (split self X y groups).1 =
      Yield (second, first) (Yield (first, second) Stop).
Proof.
  intros labels Hn Hk.
  rewrite split_yields_all by (done || fold labels; lia). fold labels.
  rewrite <-length_np_unique in Hk.
  pose proof (NoDup_np_unique labels) as Hnodup.
  pose proof (elem_of_np_unique labels) as Hin.
  destruct (np_unique labels) as [|l1 [|l2 [|??]]]; try done.
  apply NoDup_cons in Hnodup as [Hne _].
  assert (l1 ≠ l2) as Hne' by (intros ->; apply Hne; left).
  exists (rows_labelled labels l1), (rows_labelled labels l2).
  simpl. unfold partition_of.
  rewrite (rows_not_labelled_other labels l1 l2); [| done |].
  - rewrite (rows_not_labelled_other labels l2 l1); [done | done |].
    intros l Hl%Hin. apply elem_of_cons in Hl as [->|Hl]; [by right |].
    apply elem_of_cons in Hl as [->|Hl]; [by left |]. by apply elem_of_nil in Hl.
  - intros l Hl%Hin. apply elem_of_cons in Hl as [->|Hl]; [by left |].
    apply elem_of_cons in Hl as [->|Hl]; [by right |]. by apply elem_of_nil in Hl.
Qed.
End corner_cases.

(** ** The further properties at concrete inputs *)

Lemma iter_test_masks_one_true_per_row_witness :
  let self := __init__ (Stub [3; 8; 3]%Z) in
  let X : @FeatureMatrix Z := [[10]; [20]; [30]]%Z in
  let labels := (fit_predict (clusterer self) X).1 in
  let masks := yielded (_iter_test_masks (Target := Z) self X None None).1 in
  2 ≤ size (distinct_labels labels) ∧
  (∀ mask, mask ∈ masks → length mask = length labels) ∧
  (∀ i, i < length labels →
     ∃ j mask, masks !! j = Some mask ∧ mask !! i = Some true ∧
       ∀ j' mask', masks !! j' = Some mask' → mask' !! i = Some true →
         j' = j).
Proof.
  cbv zeta. split; [vm_compute; lia |].
  apply (iter_test_masks_one_true_per_row (Target := Z)
           (__init__ (Stub [3; 8; 3]%Z)) [[10]; [20]; [30]]%Z).
  vm_compute; lia.
Defined.

Lemma split_test_is_one_cluster_witness :
  let self := __init__ (Stub [3; 8; 3]%Z) in
  let X : @FeatureMatrix Z := [[10]; [20]; [30]]%Z in
  let labels := (fit_predict (clusterer self) X).1 in
  ([1], [0; 2]) ∈ yielded (split (Target := Z) self X None None).1 ∧
  0 ∈ [0; 2] ∧
  (2 ∈ [0; 2] ↔ 2 < length X ∧ labels !! 2 = labels !! 0).
Proof.
  cbv zeta.
  assert (([1], [0; 2]) ∈
          yielded (split (Target := Z) (__init__ (Stub [3; 8; 3]%Z))
                     ([[10]; [20]; [30]]%Z : @FeatureMatrix Z) None None).1)
    as Hin.
  { vm_compute. constructor. }
  assert (0 ∈ [0; 2]) as Hrow by left.
  split; [exact Hin |]. split; [exact Hrow |].
  exact (split_test_is_one_cluster _ _ _ _ _ _ 0 2 Hin Hrow).
Defined.

Lemma split_indices_sorted_witness :
  let X : @FeatureMatrix Z := [[10]; [20]; [30]]%Z in
  ([1], [0; 2]) ∈
    yielded (split (Target := Z) (__init__ (Stub [3; 8; 3]%Z)) X None None).1 ∧
  StronglySorted lt [1] ∧ StronglySorted lt [0; 2] ∧
  length [1] + length [0; 2] = length X.
Proof.
  cbv zeta.
  assert (([1], [0; 2]) ∈
          yielded (split (Target := Z) (__init__ (Stub [3; 8; 3]%Z))
                     ([[10]; [20]; [30]]%Z : @FeatureMatrix Z) None None).1)
    as Hin.
  { vm_compute. constructor. }
  split; [exact Hin |].
  exact (split_indices_sorted _ _ _ _ _ _ Hin).
Defined.

Lemma split_tests_permute_rows_witness :
  let X : @FeatureMatrix Z := [[10]; [20]; [30]]%Z in
  let run := (split (Target := Z) (__init__ (Stub [8; 3; 8]%Z)) X None None).1 in
  raised run = None ∧ mjoin (yielded run).*2 ≡ₚ seq 0 (length X).
Proof.
  cbv zeta. split; [reflexivity |].
  apply (split_tests_permute_rows (Target := Z)
           (__init__ (Stub [8; 3; 8]%Z)) [[10]; [20]; [30]]%Z).
  reflexivity.
Defined.


Lemma split_relabel_injective_witness :
  let self1 := __init__ (Stub [0; 0; 1]%Z) in
  let self2 := __init__ (Stub [0; 0; -1]%Z) in
  let X : @FeatureMatrix Z := [[10]; [20]; [30]]%Z in
  let run1 := (split (Target := Z) self1 X None None).1 in
  let run2 := (split (Target := Z) self2 X None None).1 in
  Inj (=) (=) Z.opp ∧
  (fit_predict (clusterer self2) X).1 =
    Z.opp <$> (fit_predict (clusterer self1) X).1 ∧
  (get_n_splits (Target := Z) self2 X None None).1 =
    (get_n_splits (Target := Z) self1 X None None).1 ∧
  raised run2 = raised run1 ∧
  yielded run2 ≡ₚ yielded run1.
Proof.
  cbv zeta.
  assert (Inj (=) (=) Z.opp) as Hinj by (intros a b; lia).
  split; [exact Hinj |]. split; [reflexivity |].
  apply (split_relabel_injective (Target := Z)
           (__init__ (Stub [0; 0; 1]%Z)) (__init__ (Stub [0; 0; -1]%Z))
           Z.opp [[10]; [20]; [30]]%Z None None Hinj).
  reflexivity.
Defined.

Lemma split_relabel_increasing_witness :
  let self1 := __init__ (Stub [0; 0; 1; 1]%Z) in
  let self2 := __init__ (Stub [5; 5; 9; 9]%Z) in
  let X : @FeatureMatrix Z := [[10]; [20]; [30]; [40]]%Z in
  let f := λ label, (4 * label + 5)%Z in
  (∀ a b, (a < b)%Z → (f a < f b)%Z) ∧
  (fit_predict (clusterer self2) X).1 =
    f <$> (fit_predict (clusterer self1) X).1 ∧
  (split (Target := Z) self2 X None None).1 =
    (split (Target := Z) self1 X None None).1.
Proof.
  cbv zeta.
  assert (∀ a b, (a < b)%Z → (4 * a + 5 < 4 * b + 5)%Z) as Hmono
    by (intros a b; lia).
  split; [exact Hmono |]. split; [reflexivity |].
  apply (split_relabel_increasing (Target := Z)
           (__init__ (Stub [0; 0; 1; 1]%Z)) (__init__ (Stub [5; 5; 9; 9]%Z))
           (λ label, (4 * label + 5)%Z) [[10]; [20]; [30]; [40]]%Z
           None None Hmono).
  reflexivity.
Defined.

Lemma split_distinct_labels_leave_one_out_witness :
  let self := __init__ (Stub [4; 2; 7]%Z) in
  let X : @FeatureMatrix Z := [[10]; [20]; [30]]%Z in
  let labels := (fit_predict (clusterer self) X).1 in
  let run := (split (Target := Z) self X None None).1 in
  NoDup labels ∧
  length labels = length X ∧
  2 ≤ length X ∧
  raised run = None ∧
  length (yielded run) = length X ∧
  ∀ train test, (train, test) ∈ yielded run →
    length test = 1 ∧ length train = length X - 1.
Proof.
  cbv zeta.
  assert (NoDup [4; 2; 7]%Z) as Hnodup
    by (apply (bool_decide_unpack (NoDup [4; 2; 7]%Z)); reflexivity).
  split; [exact Hnodup |]. split; [reflexivity |]. split; [simpl; lia |].
  apply (split_distinct_labels_leave_one_out (Target := Z)
           (__init__ (Stub [4; 2; 7]%Z)) [[10]; [20]; [30]]%Z);
    [exact Hnodup | reflexivity | simpl; lia].
Defined.

Lemma split_two_clusters_mirror_witness :
  let self := __init__ (Stub [6; 1; 6; 6]%Z) in
  let X : @FeatureMatrix Z := [[10]; [20]; [30]; [40]]%Z in
  let labels := (fit_predict (clusterer self) X).1 in
  length labels = length X ∧
  size (distinct_labels labels) = 2 ∧
  ∃ first second,
    (split (Target := Z) self X None None).1 =
      Yield (second, first) (Yield (first, second) Stop).
Proof.
  cbv zeta. split; [reflexivity |]. split; [by vm_compute |].
  apply (split_two_clusters_mirror (Target := Z)
           (__init__ (Stub [6; 1; 6; 6]%Z)) [[10]; [20]; [30]; [40]]%Z);
    [reflexivity | by vm_compute].
Defined.

(** * The inherited [split] with its input validation *)

Lemma check_consistent_length_same lengths :
  (∀ a b, a ∈ lengths → b ∈ lengths → a = b) →
  check_consistent_length lengths = inr ().
Proof.
  intros Hsame. unfold check_consistent_length.
  apply decide_False. intros Hlen.
  pose proof (NoDup_np_unique (Z.of_nat <$> lengths)) as Hnodup.
  pose proof (elem_of_np_unique (Z.of_nat <$> lengths)) as Hin.
  destruct (np_unique (Z.of_nat <$> lengths)) as [|x [|x' rest]];
    simpl in Hlen; [lia | lia |].
  apply NoDup_cons in Hnodup as [Hfresh _]. apply Hfresh.
  assert (x ∈ Z.of_nat <$> lengths) as (a & -> & Ha)%list_elem_of_fmap
    by (apply Hin; left).
  assert (x' ∈ Z.of_nat <$> lengths) as (b & -> & Hb)%list_elem_of_fmap
    by (apply Hin; right; left).
  rewrite (Hsame a b Ha Hb). left.
Qed.

Lemma check_consistent_length_differ lengths a b :
  a ∈ lengths → b ∈ lengths → a ≠ b →
  check_consistent_length lengths = inl (inconsistent_samples lengths).
Proof.
  intros Ha Hb Hne. unfold check_consistent_length.
  apply decide_True.
  assert (Z.of_nat a ∈ np_unique (Z.of_nat <$> lengths)) as Ha'.
  { apply elem_of_np_unique. by apply list_elem_of_fmap_2. }
  assert (Z.of_nat b ∈ np_unique (Z.of_nat <$> lengths)) as Hb'.
  { apply elem_of_np_unique. by apply list_elem_of_fmap_2. }
  destruct (np_unique (Z.of_nat <$> lengths)) as [|x [|x' rest]].
  - by apply elem_of_nil in Ha'.
  - apply list_elem_of_singleton in Ha', Hb'. lia.
  - simpl. lia.
Qed.

Section validation.
Context {Feature Target C : Type} `{!ClustererMixin (Feature := Feature) C}.
Implicit Types (self : LocoCV C) (X : @FeatureMatrix Feature).
Implicit Types (y groups : option (list Target)).

(** [indexable] lets through exactly the arguments that fit [X], and hands
    them on unchanged. *)
Lemma indexable_fits X y groups :
  fits_rows X y → fits_rows X groups →
  indexable X y groups = inr (X, y, groups).
Proof.
  intros Hy Hgroups. unfold indexable.
  rewrite check_consistent_length_same; [done |].
  intros a b Ha Hb. unfold _num_samples in *.
  assert (∀ c, c ∈ omap id [Some (length X); length <$> y; length <$> groups]
            → c = length X) as Hall.
  { intros c. destruct y as [entries|], groups as [entries'|]; simpl in *;
      rewrite ?Hy, ?Hgroups; intros Hc;
      repeat (apply elem_of_cons in Hc as [->|Hc]; [done |]);
      by apply elem_of_nil in Hc. }
  by rewrite (Hall a), (Hall b).
Qed.

Lemma indexable_unfit X y groups :
  ¬ (fits_rows X y ∧ fits_rows X groups) →
  ∃ e, indexable X y groups = inl e.
Proof.
  intros Hunfit. unfold indexable, _num_samples.
  assert (∃ c, c ∈ omap id [Some (length X); length <$> y; length <$> groups]
               ∧ c ≠ length X) as (c & Hc & Hne).
  { destruct y as [entries|], groups as [entries'|]; simpl in *.
    - destruct (decide (length entries = length X)) as [Hy|Hy].
      + exists (length entries'). split; [right; right; left |]. tauto.
      + exists (length entries). split; [right; left | done].
    - exists (length entries). split; [right; left | tauto].
    - exists (length entries'). split; [right; left | tauto].
    - tauto. }
  erewrite (check_consistent_length_differ _ c (length X));
    [by eexists | done | | done].
  destruct y, groups; left.
Qed.

(** For arguments that fit [X], as in the call [split(X)], the whole method
    is its loop. *)
Lemma BaseCrossValidator_split_fits self X y groups :
  fits_rows X y → fits_rows X groups →
  BaseCrossValidator_split self X y groups = split self X y groups.
Proof.
  intros Hy Hgroups. unfold BaseCrossValidator_split.
  by rewrite indexable_fits.
Qed.

Lemma BaseCrossValidator_split_unfit self X y groups :
  ¬ (fits_rows X y ∧ fits_rows X groups) →
  ∃ e, BaseCrossValidator_split self X y groups = (Raise e, self).
Proof.
  intros [e He]%indexable_unfit. exists e.
  unfold BaseCrossValidator_split. by rewrite He.
Qed.

Lemma fits_rows_dec X y : Decision (fits_rows X y).
Proof. destruct y; simpl; apply _. Qed.


(** X3: a run of the inherited [split(X, y, groups)] ends without an
    exception exactly when [y] and [groups] are each absent or as long as
    [X], and the clusterer has returned one label per row of [X] and at
    least two distinct labels. *)
Theorem split_completes_iff self X y groups :
  let labels := (fit_predict (clusterer self) X).1 in
  raised (BaseCrossValidator_split self X y groups).1 = None ↔
  fits_rows X y ∧ fits_rows X groups ∧
  length labels = length X ∧ 2 ≤ size (distinct_labels labels).
Proof.
  intros labels.
  destruct (fits_rows_dec X y) as [Hy|Hy], (fits_rows_dec X groups) as [Hg|Hg].
  - rewrite BaseCrossValidator_split_fits by done.
    rewrite split_loop_completes_iff. fold labels. tauto.
  - destruct (BaseCrossValidator_split_unfit self X y groups) as [e ->];
      [tauto |]. simpl. split; [done | tauto].
  - destruct (BaseCrossValidator_split_unfit self X y groups) as [e ->];
      [tauto |]. simpl. split; [done | tauto].
  - destruct (BaseCrossValidator_split_unfit self X y groups) as [e ->];
      [tauto |]. simpl. split; [done | tauto].
Qed.
End validation.


